(** * ArtistGrid bot: the lookup pipeline of [main.py]

    A shallow embedding of the data retrieval, normalisation, filtering and
    chunked-delivery code of the bot, and the properties its specification
    states about it.

    Python values are modelled as follows.
    - [str]: a Python string is a sequence of Unicode code points, so a
      [list N]; [len] is [length], [+] is [++].
    - a CSV row (a [dict] built by [csv.DictReader]) is a [gmap] from column
      name to cell; a cell is a string or [None] (the reader's filler for a
      short line).
    - an [int] is a [Z].
    - exceptions are values of [exn]; code that can raise returns a [result].
    - the slash commands talk to Discord and to the network: they are
      computations in [cmd], which records the calls made, in order. *)

From Stdlib Require Import ZArith NArith List Ascii String DecimalString.
From stdpp Require Import base option list gmap.

Local Open Scope Z_scope.

(** ** Strings *)

Abbreviation str := (list N).

(** An ASCII literal of the source, as code points. *)
Definition lit (s : string) : str :=
  List.map N_of_ascii (list_ascii_of_string s).
Arguments lit : simpl never.

(** [len(s)], a Python [int]. *)
Definition len (s : str) : Z := Z.of_nat (length s).

(** [f"{n}"] for an [int]: decimal digits, with a minus sign if negative. *)
Definition str_of_int (n : Z) : str :=
  lit (NilZero.string_of_int (Z.to_int n)).

(** ** Splitting the formatted records into messages
    ([send_paginated_response], the part that builds [chunks]) *)

Definition sep : str := lit (String "010" (String "010" EmptyString)).

(** One turn of [for line in lines]: the state is [(chunks, current_chunk)]. *)
Definition chunk_step (chunk_size : Z) (st : list str * str) (line : str)
  : list str * str :=
  let '(chunks, current_chunk) := st in
  let '(chunks, current_chunk) :=
    if bool_decide (len current_chunk + len line + 2 > chunk_size)
    then (chunks ++ [current_chunk], [])
    else (chunks, current_chunk) in
  (chunks, current_chunk ++ line ++ sep).

(** The list [chunks] once the loop and the final [if current_chunk:] are
    done. *)
Definition paginate (lines : list str) (chunk_size : Z) : list str :=
  let '(chunks, current_chunk) :=
    fold_left (chunk_step chunk_size) lines ([], []) in
  match current_chunk with
  | [] => chunks
  | _ => chunks ++ [current_chunk]
  end.

(** The joined text: every record followed by its blank-line separator. *)
Definition joined (lines : list str) : str :=
  concat (List.map (fun line => line ++ sep) lines).

(** ** Library functions on strings *)

(** [str.isspace] on one code point: the characters [str.strip()] removes. *)
Definition is_space (c : N) : bool :=
  ((9 <=? c) && (c <=? 13) || (28 <=? c) && (c <=? 32)
   || (c =? 133) || (c =? 160) || (c =? 5760)
   || (8192 <=? c) && (c <=? 8202)
   || (c =? 8232) || (c =? 8233) || (c =? 8239) || (c =? 8287)
   || (c =? 12288))%N.

Fixpoint lstrip (s : str) : str :=
  match s with
  | c :: s' => if is_space c then lstrip s' else s
  | [] => []
  end.

(** [s.strip()]: leading and trailing whitespace removed. *)
Definition strip (s : str) : str := rev (lstrip (rev (lstrip s))).

(** What [str.lower] does to an ASCII character. *)
Definition ascii_lower_char (c : N) : N :=
  if ((65 <=? c) && (c <=? 90))%N then (c + 32)%N else c.

Definition ascii_lower (s : str) : str := List.map ascii_lower_char s.

Definition is_ascii (s : str) : Prop := Forall (fun c => (c < 128)%N) s.

(** [s.startswith(p)], returning what follows the prefix. *)
Fixpoint strip_prefix (p s : str) : option str :=
  match p, s with
  | [], _ => Some s
  | a :: p', b :: s' => if bool_decide (a = b) then strip_prefix p' s' else None
  | _ :: _, [] => None
  end.

Definition startswith (p s : str) : bool :=
  match strip_prefix p s with Some _ => true | None => false end.

(** [a in b] on strings: [a] occurs in [b] as a contiguous run. *)
Fixpoint contains (a b : str) : bool :=
  startswith a b ||
  match b with
  | [] => false
  | _ :: b' => contains a b'
  end.

(** ** Exceptions and results *)

Inductive exn :=
  | Exception (msg : str)        (* [raise Exception(msg)] *)
  | LibraryError (msg : str)     (* raised inside aiohttp or csv *)
  | KeyError (key : str)         (* [row[key]] with no such key *)
  | AttributeError (attr : str)  (* [None.attr] *)
  | TypeError.                   (* [re.match] on [None] *)

(** [str(e)]. The keys the program looks up are quote-free literals, so the
    [repr] of a key is the key between single quotes. *)
Definition exn_str (e : exn) : str :=
  match e with
  | Exception msg | LibraryError msg => msg
  | KeyError key => lit "'" ++ key ++ lit "'"
  | AttributeError attr =>
      lit "'NoneType' object has no attribute '" ++ attr ++ lit "'"
  | TypeError => lit "expected string or bytes-like object, got 'NoneType'"
  end.

Inductive result (A : Type) :=
  | Ok (a : A)
  | Raise (e : exn).
Arguments Ok {A} a.
Arguments Raise {A} e.

#[global] Instance result_ret : MRet result := fun A a => Ok a.
#[global] Instance result_bind : MBind result := fun A B f m =>
  match m with
  | Ok a => f a
  | Raise e => Raise e
  end.
#[global] Instance result_fmap : FMap result := fun A B f m =>
  match m with
  | Ok a => Ok (f a)
  | Raise e => Raise e
  end.

(** ** Rows *)

Inductive value :=
  | VStr (s : str)
  | VNone.

(** [f"{v}"]. *)
Definition format (v : value) : str :=
  match v with
  | VStr s => s
  | VNone => lit "None"
  end.

(** [row[key]]. *)
Definition getitem (row : gmap str value) (key : str) : result value :=
  match row !! key with
  | Some v => Ok v
  | None => Raise (KeyError key)
  end.

(** The receiver of a string method: [None] has no such attribute. *)
Definition receiver (attr : string) (v : value) : result str :=
  match v with
  | VStr s => Ok s
  | VNone => Raise (AttributeError (lit attr))
  end.

(** ** Constants *)

Definition CSV_URL : str := lit "https://sheets.artistgrid.cx/artists.csv".
Definition ALLOWED_GUILD_ID : Z := 1395824457527988377.
Definition STAR : str := [11088%N].

(** The character class [[a-zA-Z0-9-_]] of [GOOGLE_SHEETS_RE]. *)
Definition sheet_id_char (c : N) : bool :=
  ((97 <=? c) && (c <=? 122) || (65 <=? c) && (c <=? 90)
   || (48 <=? c) && (c <=? 57) || (c =? 45) || (c =? 95))%N.

Definition SHEETS_PREFIX : str := lit "https://docs.google.com/spreadsheets/d/".

(** The pattern of [GOOGLE_SHEETS_RE] tried at the start of [u], returning
    the group: the literal prefix, then 44 characters of the class. Nothing
    is required of what follows. *)
Definition sheets_group (u : str) : option str :=
  match strip_prefix SHEETS_PREFIX u with
  | Some rest =>
      let sheet_id := take 44 rest in
      if (length sheet_id =? 44)%nat && forallb sheet_id_char sheet_id
      then Some sheet_id
      else None
  | None => None
  end.

(** [GOOGLE_SHEETS_RE.match(url)], as [match.group(1)] when there is a
    match. [re.match] rejects [None]. *)
Definition GOOGLE_SHEETS_RE_match (url : value) : result (option str) :=
  match url with
  | VNone => Raise TypeError
  | VStr u => Ok (sheets_group u)
  end.

(** ** Commands: what a slash command does to the outside world *)

Inductive event :=
  | SendMessage (content : str) (ephemeral : bool)
      (* [interaction.response.send_message(content, ephemeral=...)] *)
  | Defer          (* [interaction.response.defer()] *)
  | HttpGet (url : str)   (* [session.get(url)] *)
  | FollowupSend (content : str).
      (* [interaction.followup.send(content, suppress_embeds=True)] *)

(** A command yields the calls it made, in order, and returns or raises. *)
Definition cmd (A : Type) : Type := list event * result A.

#[global] Instance cmd_ret : MRet cmd := fun A a => ([], Ok a).
#[global] Instance cmd_bind : MBind cmd := fun A B f m =>
  match m with
  | (t, Ok a) => let '(t', r) := f a in (t ++ t', r)
  | (t, Raise e) => (t, Raise e)
  end.

Definition call (e : event) : cmd unit := ([e], Ok tt).
Definition lift {A} (r : result A) : cmd A := ([], r).

(** The body of a [try:]: a raised exception becomes a value for the
    [except Exception as e:] clause to inspect. *)
Definition attempt {A} (m : cmd A) : cmd (result A) := (m.1, Ok m.2).

(** [for x in xs: await f(x)]. *)
Fixpoint for_each {A} (f : A -> cmd unit) (xs : list A) : cmd unit :=
  match xs with
  | [] => mret tt
  | x :: xs' => f x;; for_each f xs'
  end.

(** What the request to [CSV_URL] meets: no reply at all, or a reply with a
    status and a payload. The payload is given by what [resp.text()] and
    [csv.DictReader] make of it: the rows, or an error of theirs. *)
Inductive payload :=
  | Unreadable (msg : str)
  | Rows (data : list (gmap str value)).

Record response := {
  status : Z;
  body : payload
}.

Inductive remote :=
  | Unreachable (msg : str)
  | Replied (resp : response).

Record Interaction := { guild_id : option Z }.

Definition fetch_csv (net : remote) : cmd (list (gmap str value)) :=
  call (HttpGet CSV_URL);;
  match net with
  | Unreachable msg => lift (Raise (LibraryError msg))
  | Replied resp =>
      if bool_decide (status resp ≠ 200)
      then lift (Raise (Exception
                   (lit "Failed to fetch CSV: HTTP " ++ str_of_int (status resp))))
      else match body resp with
           | Unreadable msg => lift (Raise (LibraryError msg))
           | Rows data => lift (Ok data)
           end
  end.

Definition send_paginated_response (lines : list str) (chunk_size : Z)
  : cmd unit :=
  for_each (fun chunk => call (FollowupSend chunk)) (paginate lines chunk_size).

Definition UNAUTHORIZED : str :=
  lit "This command can only be used in the authorized server.".

Section Bot.

(** [str.lower]: Unicode lower-casing, library code. Only what it does to
    ASCII text is ever assumed of it, and only where stated. *)
Variable lower : str -> str.

Definition parse_csv_row (row : gmap str value) : result str :=
  artist_name ← getitem row (lit "Artist Name");
  best ← getitem row (lit "Best") ≫= receiver "strip";
  let artist_name :=
    if bool_decide (lower (strip best) = lit "yes")
    then VStr (STAR ++ format artist_name ++ STAR)
    else artist_name in
  url ← getitem row (lit "URL");
  m ← GOOGLE_SHEETS_RE_match url;
  let url :=
    match m with
    | Some sheet_id => VStr (lit "https://trackerhub.cx/sh/" ++ sheet_id)
    | None => url
    end in
  credit ← getitem row (lit "Credit");
  links_work ← getitem row (lit "Links Work");
  updated ← getitem row (lit "Updated");
  Ok (lit "[" ++ format artist_name ++ lit "](" ++ format url
        ++ lit (String ")" (String "010" EmptyString))
      ++ lit "credit: (" ++ format credit
        ++ lit (String ")" (String "010" EmptyString))
      ++ lit "Links work: " ++ format links_work
        ++ lit (String "010" EmptyString)
      ++ lit "Updated: " ++ format updated).

(** The comprehension of [search]:
    [[parse_csv_row(row) for row in data
      if artist_lower in row["Artist Name"].lower()]]. *)
Fixpoint matching_rows (artist_lower : str) (data : list (gmap str value))
  : result (list str) :=
  match data with
  | [] => Ok []
  | row :: data' =>
      name ← getitem row (lit "Artist Name") ≫= receiver "lower";
      if contains artist_lower (lower name)
      then line ← parse_csv_row row;
           rest ← matching_rows artist_lower data';
           Ok (line :: rest)
      else matching_rows artist_lower data'
  end.

(** [results] in [search]: the comprehension, then [[:5]]. *)
Definition search_results (data : list (gmap str value)) (artist : str)
  : result (list str) :=
  take 5 <$> matching_rows (lower artist) data.

Definition search (net : remote) (interaction : Interaction) (artist : str)
  : cmd unit :=
  if bool_decide (guild_id interaction ≠ Some ALLOWED_GUILD_ID)
  then call (SendMessage UNAUTHORIZED true)
  else
    call Defer;;
    fetched ← attempt (fetch_csv net);
    match fetched with
    | Raise e => call (FollowupSend (exn_str e))
    | Ok data =>
        results ← lift (search_results data artist);
        match results with
        | [] => call (FollowupSend
                        (lit "No results found for '" ++ artist ++ lit "'."))
        | _ => send_paginated_response results 1800
        end
    end.

Definition list_trackers (net : remote) (interaction : Interaction)
  : cmd unit :=
  if bool_decide (guild_id interaction ≠ Some ALLOWED_GUILD_ID)
  then call (SendMessage UNAUTHORIZED true)
  else
    call Defer;;
    fetched ← attempt (fetch_csv net);
    match fetched with
    | Raise e => call (FollowupSend (exn_str e))
    | Ok data =>
        results ← lift (mapM parse_csv_row data);
        match results with
        | [] => call (FollowupSend (lit "No trackers found."))
        | _ => send_paginated_response results 1800
        end
    end.

End Bot.

(** ** Lower-casing of Latin and Greek text *)

(** [str.lower] on text made of ASCII characters and the letters of the
    Greek alphabet (U+0391 to U+03A9 and U+03B1 to U+03C9). A capital moves
    to its small letter, 32 code points up; capital sigma becomes the final
    sigma when it ends a word and the ordinary one otherwise. Every other
    character of that range is kept. *)







(** ** Vocabulary of the statements *)

(** The columns the program reads. *)
Definition REQUIRED : list str :=
  [lit "Artist Name"; lit "Best"; lit "URL"; lit "Credit"; lit "Links Work";
   lit "Updated"].

(** A row with all six cells, each a string. *)
Definition has_fields (row : gmap str value)
    (name best url credit links_work updated : str) : Prop :=
  row !! lit "Artist Name" = Some (VStr name) /\
  row !! lit "Best" = Some (VStr best) /\
  row !! lit "URL" = Some (VStr url) /\
  row !! lit "Credit" = Some (VStr credit) /\
  row !! lit "Links Work" = Some (VStr links_work) /\
  row !! lit "Updated" = Some (VStr updated).

Definition well_formed (row : gmap str value) : bool :=
  forallb (fun key => match row !! key with
                      | Some (VStr _) => true
                      | _ => false
                      end) REQUIRED.

(** The artist name as the sheet has it, before any decoration. *)
Definition raw_name (row : gmap str value) : str :=
  match row !! lit "Artist Name" with
  | Some (VStr name) => name
  | _ => []
  end.

(** The four lines of a formatted record. *)
Definition record_text (name url credit links_work updated : str) : str :=
  lit "[" ++ name ++ lit "](" ++ url
    ++ lit (String ")" (String "010" EmptyString))
  ++ lit "credit: (" ++ credit
    ++ lit (String ")" (String "010" EmptyString))
  ++ lit "Links work: " ++ links_work ++ lit (String "010" EmptyString)
  ++ lit "Updated: " ++ updated.

(** [a] occurs in [b]. *)
Definition occurs_in (a b : str) : Prop := exists pre post, b = pre ++ a ++ post.

(** A URL that starts with the sheets prefix and a 44-character id. *)
Definition sheets_link (url sheet_id : str) : Prop :=
  exists rest,
    url = SHEETS_PREFIX ++ sheet_id ++ rest /\
    length sheet_id = 44%nat /\
    Forall (fun c => sheet_id_char c = true) sheet_id.

(** The characters an id is made of, as the claim spells them:
    [A-Z], [a-z], [0-9], underscore and hyphen. *)
Definition ID_ALPHABET : str :=
  lit "ABCDEFGHIJKLMNOPQRSTUVWXYZabcdefghijklmnopqrstuvwxyz0123456789_-".

(** A sheets sharing link, as the claim words it: the URL starts with
    [https://docs.google.com/spreadsheets/d/], then come 44 characters of
    the alphabet, then anything. *)
Definition is_sheets_link (url sheet_id : str) : Prop :=
  exists rest,
    url = lit "https://docs.google.com/spreadsheets/d/" ++ sheet_id ++ rest /\
    length sheet_id = 44%nat /\
    Forall (fun c => c ∈ ID_ALPHABET) sheet_id.

(** The name as [parse_csv_row] shows it (lines 32 to 34). *)
Definition shown_name (lower : str -> str) (name best : str) : str :=
  if bool_decide (lower (strip best) = lit "yes")
  then STAR ++ name ++ STAR
  else name.

(** The URL as [parse_csv_row] shows it (lines 36 to 40). *)
Definition shown_url (url : str) : str :=
  match sheets_group url with
  | Some sheet_id => lit "https://trackerhub.cx/sh/" ++ sheet_id
  | None => url
  end.

(** A row [parse_csv_row] cannot format: a column is absent, or the best
    flag or the URL is [None]. *)
Definition unusable (row : gmap str value) : bool :=
  existsb (fun key => match row !! key with
                      | None => true
                      | Some _ => false
                      end) REQUIRED
  || existsb (fun key => match row !! key with
                         | Some VNone => true
                         | _ => false
                         end) [lit "Best"; lit "URL"].

(** A chunk is in order when it fits, or is one record that alone does not. *)
Definition chunk_ok (n : Z) (g : list str) : Prop :=
  len (joined g) <= n \/ exists l, g = [l] /\ len l + 2 > n.

(** HTTP's success statuses: the 2xx class. *)
Definition success_status (st : Z) : Prop := 200 <= st < 300.

(** ** Sample data *)

Definition mk_row (name best url credit links_work updated : value)
  : gmap str value :=
  list_to_map
    [(lit "Artist Name", name); (lit "Best", best); (lit "URL", url);
     (lit "Credit", credit); (lit "Links Work", links_work);
     (lit "Updated", updated)].

Definition SHEET_URL : str :=
  SHEETS_PREFIX ++ lit "1aBcDeFgHiJkLmNoPqRsTuVwXyZ0123456789-_abcdE"
    ++ lit "/edit?usp=sharing".

Definition alice_row : gmap str value :=
  mk_row (VStr (lit "Alice")) (VStr (lit " Yes ")) (VStr (lit "https://example.com/a"))
         (VStr (lit "ann")) (VStr (lit "yes")) (VStr (lit "2024-01-01")).

Definition bob_row : gmap str value :=
  mk_row (VStr (lit "Bob")) (VStr (lit "no")) (VStr SHEET_URL)
         (VStr (lit "bo")) (VStr (lit "no")) (VStr (lit "2023-12-31")).



(** The row [csv.DictReader] builds from the one-cell line [Carol]. *)
Definition short_row : gmap str value :=
  mk_row (VStr (lit "Carol")) VNone VNone VNone VNone VNone.

Definition authorized : Interaction := {| guild_id := Some ALLOWED_GUILD_ID |}.
Definition elsewhere : Interaction := {| guild_id := Some 42 |}.

(** A remote that serves [data] with status 200. *)
Definition served (data : list (gmap str value)) : remote :=
  Replied {| status := 200; body := Rows data |}.

(** A remote that answers with status 500. *)
Definition http_500 : remote :=
  Replied {| status := 500; body := Rows [alice_row] |}.

(** Bob's row once its URL has been rewritten. *)
Definition bob_row_rewritten : gmap str value :=
  mk_row (VStr (lit "Bob")) (VStr (lit "no"))
         (VStr (lit "https://trackerhub.cx/sh/1aBcDeFgHiJkLmNoPqRsTuVwXyZ0123456789-_abcdE"))
         (VStr (lit "bo")) (VStr (lit "no")) (VStr (lit "2023-12-31")).

(** A row of a sheet that has no [Credit] column. *)
Definition no_credit_row : gmap str value :=
  list_to_map
    [(lit "Artist Name", VStr (lit "Dana")); (lit "Best", VStr (lit "no"));
     (lit "URL", VStr (lit "https://example.com/d"));
     (lit "Links Work", VStr (lit "yes")); (lit "Updated", VStr (lit "2024"))].

(** A sheets link whose id is one character short. *)
Definition SHORT_ID_URL : str :=
  SHEETS_PREFIX ++ lit "1aBcDeFgHiJkLmNoPqRsTuVwXyZ0123456789-_abcd".

Definition short_id_row : gmap str value :=
  mk_row (VStr (lit "Eve")) (VStr (lit "no")) (VStr SHORT_ID_URL)
         (VStr (lit "ev")) (VStr (lit "no")) (VStr (lit "2022")).

(** A row with a best flag and a URL and nothing else filled in. *)
Definition blank_row : gmap str value :=
  mk_row VNone (VStr (lit "yes")) (VStr (lit "https://example.com/x"))
         VNone VNone VNone.

(** ** The chunking loop read from the front *)

(** The chunks still to come when [current_chunk] is [cur] and [lines] are
    yet to be read: the loop of [send_paginated_response] and its final
    [if current_chunk:], unrolled from the first line on. *)
Fixpoint chunks_from (chunk_size : Z) (cur : str) (lines : list str)
  : list str :=
  match lines with
  | [] => match cur with
          | [] => []
          | _ => [cur]
          end
  | line :: lines' =>
      if bool_decide (len cur + len line + 2 > chunk_size)
      then cur :: chunks_from chunk_size ([] ++ line ++ sep) lines'
      else chunks_from chunk_size (cur ++ line ++ sep) lines'
  end.

(** The texts handed to [interaction.followup.send], in order. *)
Definition followups (calls : list event) : list str :=
  flat_map (fun e => match e with
                     | FollowupSend content => [content]
                     | _ => []
                     end) calls.

(** A command that has acknowledged the interaction and made its one
    request: after [Defer] and the request, it only sends follow-up messages;
    it has sent at least one if it returns, and none if it raises. *)
Definition answered (c : cmd unit) : Prop :=
  exists sent,
    c.1 = Defer :: HttpGet CSV_URL :: List.map FollowupSend sent /\
    (c.2 = Ok tt -> sent <> []) /\
    (forall e, c.2 = Raise e -> sent = []).

(** * Properties *)

(** ** Chunking *)

Lemma len_app (a b : str) : len (a ++ b) = len a + len b.
Proof. unfold len. rewrite length_app. lia. Qed.

Lemma len_sep : len sep = 2.
Proof. reflexivity. Qed.

Lemma len_nonneg (s : str) : 0 <= len s.
Proof. unfold len. lia. Qed.

Lemma joined_app (xs ys : list str) : joined (xs ++ ys) = joined xs ++ joined ys.
Proof. unfold joined. by rewrite List.map_app, concat_app. Qed.

Lemma joined_single (l : str) : joined [l] = l ++ sep.
Proof. unfold joined. simpl. by rewrite app_nil_r. Qed.

Lemma joined_nil_inv (g : list str) : joined g = [] -> g = [].
Proof.
  destruct g as [|l g]; [done|].
  unfold joined. simpl. intros H.
  apply (f_equal (@length N)) in H. rewrite !length_app in H. simpl in H. lia.
Qed.

(** The loop never touches the chunks already sealed. *)
Lemma fold_chunk_step_extends n lines chunks cur :
  exists more,
    (fold_left (chunk_step n) lines (chunks, cur)).1 = chunks ++ more.
Proof.
  revert chunks cur. induction lines as [|l lines IH]; intros chunks cur.
  - exists []. simpl. by rewrite app_nil_r.
  - simpl. case_bool_decide.
    + destruct (IH (chunks ++ [cur]) (l ++ sep)) as [more Hm].
      exists (cur :: more). rewrite app_nil_l, Hm. by rewrite <- app_assoc.
    + apply IH.
Qed.

(** What the loop has produced, sealed chunks then the accumulator, is what
    it started from followed by the text of the lines read. *)
Lemma fold_chunk_step_text n lines chunks cur :
  let st := fold_left (chunk_step n) lines (chunks, cur) in
  concat st.1 ++ st.2 = concat chunks ++ cur ++ joined lines.
Proof.
  revert chunks cur. induction lines as [|l lines IH]; intros chunks cur; simpl.
  - unfold joined. simpl. by rewrite app_nil_r.
  - case_bool_decide; simpl in IH; rewrite IH.
    + rewrite concat_app. simpl. rewrite app_nil_r.
      change (joined (l :: lines)) with ((l ++ sep) ++ joined lines).
      by rewrite <- !app_assoc.
    + change (joined (l :: lines)) with ((l ++ sep) ++ joined lines).
      by rewrite <- !app_assoc.
Qed.

Lemma fold_chunk_step_groups n lines :
  forall gs g,
    Forall (chunk_ok n) gs -> chunk_ok n g ->
    let st := fold_left (chunk_step n) lines (List.map joined gs, joined g) in
    exists gs' g',
      st = (List.map joined gs', joined g') /\
      Forall (chunk_ok n) gs' /\ chunk_ok n g' /\
      concat gs' ++ g' = concat gs ++ g ++ lines.
Proof.
  induction lines as [|l lines IH]; intros gs g Hgs Hg; simpl.
  - exists gs, g. by rewrite app_nil_r.
  - case_bool_decide as Hbig.
    + destruct (IH (gs ++ [g]) [l]) as (gs' & g' & Hst & Hgs' & Hg' & Hcat).
      * apply Forall_app. split; [done|]. by constructor.
      * destruct (decide (len l + 2 > n)) as [Hl|Hl].
        -- right. by exists l.
        -- left. rewrite joined_single, len_app, len_sep. lia.
      * exists gs', g'. split_and!; try done.
        -- rewrite List.map_app in Hst. simpl in Hst.
           rewrite joined_single in Hst. exact Hst.
        -- rewrite Hcat, concat_app. simpl. by rewrite app_nil_r, <- !app_assoc.
    + destruct (IH gs (g ++ [l])) as (gs' & g' & Hst & Hgs' & Hg' & Hcat).
      * done.
      * left. rewrite joined_app, joined_single, !len_app, len_sep. lia.
      * exists gs', g'. split_and!; try done.
        -- rewrite joined_app, joined_single in Hst. exact Hst.
        -- by rewrite Hcat, <- !app_assoc.
Qed.

(** C2. Chunking keeps the text: the chunks of [paginate], concatenated in
    order, are exactly the records joined in input order, each followed by
    its blank-line separator, whatever the chunk size. *)
Theorem paginate_concat (lines : list str) (chunk_size : Z) :
  concat (paginate lines chunk_size) = joined lines.
Proof.
  unfold paginate.
  pose proof (fold_chunk_step_text chunk_size lines [] []) as H.
  destruct (fold_left _ lines _) as [chunks cur]. simpl in H.
  destruct cur as [|c cur].
  - by rewrite app_nil_r in H.
  - rewrite concat_app. simpl. by rewrite app_nil_r.
Qed.

(** C6. For a chunk size that is not negative, the chunks of [paginate] are
    the texts of consecutive groups of whole records that together make up
    the input (so no record is split over two chunks, and none is cut), and
    every chunk has at most [chunk_size] characters unless it is a single
    record whose length with its separator exceeds [chunk_size]. *)
Theorem paginate_bounded (lines : list str) (chunk_size : Z) :
  0 <= chunk_size ->
  exists groups : list (list str),
    concat groups = lines /\
    paginate lines chunk_size = List.map joined groups /\
    Forall (fun g =>
              len (joined g) <= chunk_size \/
              exists l, g = [l] /\ joined g = l ++ sep /\
                        len (l ++ sep) > chunk_size) groups.
Proof.
  intros Hn. unfold paginate.
  destruct (fold_chunk_step_groups chunk_size lines [] [])
    as (gs & g & Hst & Hgs & Hg & Hcat).
  { constructor. }
  { left. simpl. exact Hn. }
  simpl in Hst, Hcat. change (joined []) with (@nil N) in Hst. rewrite Hst.
  assert (Hweak : forall g0, chunk_ok chunk_size g0 ->
            len (joined g0) <= chunk_size \/
            exists l, g0 = [l] /\ joined g0 = l ++ sep /\
                      len (l ++ sep) > chunk_size).
  { intros g0 [H|(l & -> & H)]; [by left|right].
    exists l. rewrite joined_single, len_app, len_sep. split_and!; [done..|lia]. }
  destruct (joined g) as [|c cur] eqn:Hj.
  - apply joined_nil_inv in Hj. subst g. rewrite app_nil_r in Hcat.
    exists gs. split_and!; [done..|]. eapply Forall_impl; [exact Hgs|exact Hweak].
  - exists (gs ++ [g]). split_and!.
    + rewrite concat_app. simpl. by rewrite app_nil_r.
    + rewrite List.map_app. simpl. by rewrite Hj.
    + apply Forall_app. split.
      * eapply Forall_impl; [exact Hgs|exact Hweak].
      * constructor; [by apply Hweak|constructor].
Qed.

(** Once a record has been read the accumulator is never empty: it ends with
    a separator. It is empty only when the first record arrives. *)
Lemma chunk_step_accumulator n st line : (chunk_step n st line).2 <> [].
Proof.
  destruct st as [chunks cur]. unfold chunk_step.
  case_bool_decide; cbn [snd]; intros Hnil;
    apply (f_equal (@length N)) in Hnil;
    rewrite !length_app in Hnil; simpl in Hnil; lia.
Qed.

(** C10. When the first record is oversized (its length plus the two
    separator characters exceeds the chunk size), the accumulator is still
    empty when it arrives: [paginate] seals that empty accumulator, so its
    first chunk is the empty string, and the next one is the oversized
    record with its separator, alone. *)
Theorem paginate_leading_empty (line : str) (rest : list str) (chunk_size : Z) :
  len line + 2 > chunk_size ->
  exists more,
    paginate (line :: rest) chunk_size = [] :: (line ++ sep) :: more.
Proof.
  intros Hbig. unfold paginate. simpl.
  rewrite bool_decide_true by (change (len []) with 0; lia).
  simpl. destruct rest as [|l2 rest].
  - simpl. exists []. destruct (line ++ sep) eqn:E; [|done].
    apply (f_equal (@length N)) in E. rewrite length_app in E. simpl in E. lia.
  - simpl. rewrite bool_decide_true.
    2:{ rewrite len_app, len_sep. pose proof (len_nonneg l2). lia. }
    destruct (fold_chunk_step_extends chunk_size rest
                ([[]] ++ [line ++ sep]) ([] ++ l2 ++ sep)) as [more Hm].
    destruct (fold_left _ rest _) as [chunks cur]. simpl in Hm. subst chunks.
    destruct cur; [by exists more|]. eexists (more ++ [_]). done.
Qed.

(** ** String library *)

Lemma strip_prefix_app (p s : str) : strip_prefix p (p ++ s) = Some s.
Proof.
  induction p as [|a p IH]; simpl; [done|].
  by rewrite bool_decide_true.
Qed.

Lemma strip_prefix_Some (p s r : str) : strip_prefix p s = Some r -> s = p ++ r.
Proof.
  revert s. induction p as [|a p IH]; intros s; simpl.
  - by intros [= ->].
  - destruct s as [|b s]; [done|]. case_bool_decide as Hab; [|done].
    intros Hs. subst b. f_equal. by apply IH.
Qed.

Lemma startswith_spec (p s : str) :
  startswith p s = true <-> exists post, s = p ++ post.
Proof.
  unfold startswith. split.
  - destruct (strip_prefix p s) as [r|] eqn:E; [|done].
    exists r. by apply strip_prefix_Some.
  - intros [post ->]. by rewrite strip_prefix_app.
Qed.

(** [contains] decides occurrence as a contiguous run. *)
Lemma contains_spec (a b : str) : contains a b = true <-> occurs_in a b.
Proof.
  unfold occurs_in. induction b as [|c b IH]; simpl.
  - rewrite orb_false_r, startswith_spec. split.
    + intros [post H]. by exists [], post.
    + intros (pre & post & H). symmetry in H.
      apply app_eq_nil in H as [-> H']. eauto.
  - rewrite orb_true_iff, startswith_spec, IH. split.
    + intros [[post H]|(pre & post & H)].
      * by exists [], post.
      * exists (c :: pre), post. by rewrite H.
    + intros ([|c' pre] & post & H).
      * left. by exists post.
      * right. injection H as -> ->. by exists pre, post.
Qed.

#[global] Instance occurs_in_dec (a b : str) : Decision (occurs_in a b).
Proof.
  refine (cast_if (decide (contains a b = true))); by rewrite <- contains_spec.
Defined.

(** ** The URL rewrite *)

Lemma shown_url_sheets (url sheet_id : str) :
  sheets_link url sheet_id ->
  shown_url url = lit "https://trackerhub.cx/sh/" ++ sheet_id.
Proof.
  intros (rest & -> & Hlen & Hcls). unfold shown_url, sheets_group.
  rewrite strip_prefix_app.
  replace (take 44 (sheet_id ++ rest)) with sheet_id
    by (by rewrite <- Hlen, take_app_length).
  rewrite Hlen. simpl.
  replace (forallb sheet_id_char sheet_id) with true; [done|].
  symmetry. apply forallb_forall. intros c Hc.
  rewrite Forall_forall in Hcls. apply Hcls. by apply list_elem_of_In.
Qed.

Lemma shown_url_other (url : str) :
  (forall sheet_id, ~ sheets_link url sheet_id) -> shown_url url = url.
Proof.
  intros Hno. unfold shown_url, sheets_group.
  destruct (strip_prefix SHEETS_PREFIX url) as [rest|] eqn:Hp; [|done].
  destruct ((length (take 44 rest) =? 44)%nat && _) eqn:Hc; [|done].
  exfalso. apply andb_true_iff in Hc as [Hlen Hcls].
  apply (Hno (take 44 rest)). exists (drop 44 rest). split_and!.
  - rewrite take_drop. by apply strip_prefix_Some.
  - by apply Nat.eqb_eq.
  - apply Forall_forall. intros c Hc. rewrite forallb_forall in Hcls.
    apply Hcls. by apply list_elem_of_In.
Qed.

(** The class of the pattern is the alphabet of the claim. *)
Lemma sheet_id_char_alphabet (c : N) :
  sheet_id_char c = true <-> c ∈ ID_ALPHABET.
Proof.
  split.
  - intros Hc.
    assert (Hlt : (N.to_nat c < 123)%nat).
    { unfold sheet_id_char in Hc.
      destruct (N.leb_spec c 122); [lia|].
      destruct (N.leb_spec c 90); [lia|]. destruct (N.leb_spec c 57); [lia|].
      destruct (N.eqb_spec c 45); [lia|]. destruct (N.eqb_spec c 95); [lia|].
      rewrite !andb_false_r in Hc. discriminate. }
    assert (Hall : forallb (fun n => implb (sheet_id_char (N.of_nat n))
                                       (bool_decide (N.of_nat n ∈ ID_ALPHABET)))
                     (seq 0 123) = true) by (vm_compute; reflexivity).
    rewrite forallb_forall in Hall.
    specialize (Hall (N.to_nat c)). rewrite N2Nat.id, Hc in Hall.
    assert (Hb : bool_decide (c ∈ ID_ALPHABET) = true)
      by (apply Hall, in_seq; lia).
    by apply bool_decide_eq_true in Hb.
  - intros Hc.
    assert (Hall : forallb sheet_id_char ID_ALPHABET = true) by reflexivity.
    rewrite forallb_forall in Hall. by apply Hall, list_elem_of_In.
Qed.

Lemma is_sheets_link_sheets_link (url sheet_id : str) :
  is_sheets_link url sheet_id <-> sheets_link url sheet_id.
Proof.
  unfold is_sheets_link, sheets_link.
  change (lit "https://docs.google.com/spreadsheets/d/") with SHEETS_PREFIX.
  split; intros (rest & Hurl & Hlen & Hcls); exists rest; split_and!; try done;
    eapply Forall_impl; try exact Hcls; intros c; apply sheet_id_char_alphabet.
Qed.

Section Normalizer.

Variable lower : str -> str.

(** On a row with its six cells, [parse_csv_row] returns the four lines with
    the shown name and the shown URL. *)
Lemma parse_csv_row_fields row name best url credit links_work updated :
  has_fields row name best url credit links_work updated ->
  parse_csv_row lower row =
    Ok (record_text (shown_name lower name best) (shown_url url)
          credit links_work updated).
Proof.
  intros (Hn & Hb & Hu & Hc & Hl & Hd).
  unfold parse_csv_row, getitem. rewrite Hn, Hb, Hu, Hc, Hl, Hd.
  cbn [mbind result_bind receiver GOOGLE_SHEETS_RE_match].
  unfold shown_name, shown_url, record_text.
  destruct (sheets_group url); case_bool_decide; cbn [format];
    by rewrite <- ?app_assoc.
Qed.

(** C4. On a row with its six cells: when the URL starts with
    [https://docs.google.com/spreadsheets/d/] followed by 44 characters of
    [[A-Za-z0-9_-]], the record shows
    [https://trackerhub.cx/sh/] followed by those 44 characters, whatever
    text came after them; when the URL does not start so, the record shows
    it unchanged. *)
Theorem url_rewrite row name best url credit links_work updated :
  has_fields row name best url credit links_work updated ->
  (forall sheet_id,
     is_sheets_link url sheet_id ->
     parse_csv_row lower row =
       Ok (record_text (shown_name lower name best)
             (lit "https://trackerhub.cx/sh/" ++ sheet_id)
             credit links_work updated)) /\
  ((forall sheet_id, ~ is_sheets_link url sheet_id) ->
     parse_csv_row lower row =
       Ok (record_text (shown_name lower name best) url
             credit links_work updated)).
Proof.
  intros Hrow. rewrite (parse_csv_row_fields _ _ _ _ _ _ _ Hrow). split.
  - intros sheet_id Hlink%is_sheets_link_sheets_link.
    by rewrite (shown_url_sheets _ _ Hlink).
  - intros Hno. rewrite shown_url_other; [done|].
    intros sheet_id Hlink%is_sheets_link_sheets_link. by apply (Hno sheet_id).
Qed.

Lemma starred_not_plain name url credit links_work updated :
  record_text (STAR ++ name ++ STAR) url credit links_work updated
  <> record_text name url credit links_work updated.
Proof.
  intros H. apply (f_equal (@length N)) in H.
  unfold record_text in H. rewrite !length_app in H. simpl in H. lia.
Qed.

(** C5. On a row with its six cells, the record shows the artist name
    between two star markers exactly when the best flag, stripped of
    surrounding whitespace and then lower-cased, is [yes]; otherwise it
    shows the name as it is. With [str.lower] acting on ASCII letters as it
    does, the flags [YES], [Yes] and [ yes ] give the starred name, and
    [no], the empty string and [maybe] the plain one. *)
Theorem best_flag_decoration row name best url credit links_work updated :
  (forall s, is_ascii s -> lower s = ascii_lower s) ->
  has_fields row name best url credit links_work updated ->
  let starred :=
    Ok (record_text (STAR ++ name ++ STAR) (shown_url url)
          credit links_work updated) in
  let plain :=
    Ok (record_text name (shown_url url) credit links_work updated) in
  (parse_csv_row lower row = starred <-> lower (strip best) = lit "yes") /\
  (parse_csv_row lower row = plain <-> lower (strip best) <> lit "yes") /\
  (best ∈ [lit "YES"; lit "Yes"; lit " yes "] ->
     parse_csv_row lower row = starred) /\
  (best ∈ [lit "no"; lit ""; lit "maybe"] ->
     parse_csv_row lower row = plain).
Proof.
  intros Hlower Hrow starred plain. subst starred plain.
  rewrite (parse_csv_row_fields _ _ _ _ _ _ _ Hrow). unfold shown_name.
  assert (Hne := starred_not_plain name (shown_url url) credit links_work updated).
  assert (Hascii : forall s : str,
            forallb (fun c => (c <? 128)%N) s = true -> is_ascii s).
  { intros s Hs. apply Forall_forall. intros c Hc.
    rewrite forallb_forall in Hs. apply N.ltb_lt, Hs. by apply list_elem_of_In. }
  split_and!.
  - case_bool_decide; split; try done; intros ?; congruence.
  - case_bool_decide; split; try done; intros ?; congruence.
  - rewrite !elem_of_cons, elem_of_nil.
    intros [->|[->|[->|[]]]]; rewrite Hlower by (by apply Hascii);
      by rewrite bool_decide_true.
  - rewrite !elem_of_cons, elem_of_nil.
    intros [->|[->|[->|[]]]]; rewrite Hlower by (by apply Hascii);
      by rewrite bool_decide_false.
Qed.

(** ** Search *)

Lemma well_formed_fields row :
  well_formed row = true ->
  exists name best url credit links_work updated,
    has_fields row name best url credit links_work updated.
Proof.
  unfold well_formed, REQUIRED, has_fields. cbn [forallb].
  rewrite !andb_true_iff.
  destruct (row !! lit "Artist Name") as [[name|]|]; [|intuition discriminate..].
  destruct (row !! lit "Best") as [[best|]|]; [|intuition discriminate..].
  destruct (row !! lit "URL") as [[url|]|]; [|intuition discriminate..].
  destruct (row !! lit "Credit") as [[credit|]|]; [|intuition discriminate..].
  destruct (row !! lit "Links Work") as [[links_work|]|]; [|intuition discriminate..].
  destruct (row !! lit "Updated") as [[updated|]|]; [|intuition discriminate..].
  intros _. by exists name, best, url, credit, links_work, updated.
Qed.

Lemma parse_csv_row_well_formed row :
  well_formed row = true -> exists line, parse_csv_row lower row = Ok line.
Proof.
  intros (n & b & u & c & l & d & H)%well_formed_fields.
  eexists. by apply parse_csv_row_fields.
Qed.

(** The comprehension on well-formed rows: the rows whose raw name contains
    the query, each formatted, in the order of the data. *)
Lemma matching_rows_well_formed (artist_lower : str) data :
  forallb well_formed data = true ->
  exists lines,
    matching_rows lower artist_lower data = Ok lines /\
    Forall2 (fun row line => parse_csv_row lower row = Ok line)
      (filter (fun row => occurs_in artist_lower (lower (raw_name row))) data)
      lines.
Proof.
  induction data as [|row data IH]; intros Hwf.
  - exists []. split; [done|constructor].
  - cbn [forallb] in Hwf. apply andb_true_iff in Hwf as [Hrow Hdata].
    destruct (IH Hdata) as (lines & Hlines & Hall).
    destruct (parse_csv_row_well_formed row Hrow) as [line Hline].
    apply well_formed_fields in Hrow as (n & b & u & c & l & d & Hf).
    assert (Hraw : raw_name row = n).
    { unfold raw_name. by rewrite (proj1 Hf). }
    cbn [matching_rows]. unfold getitem. rewrite (proj1 Hf).
    cbn [mbind result_bind receiver]. rewrite filter_cons, Hraw.
    destruct (contains artist_lower (lower n)) eqn:Hc.
    + rewrite Hline, Hlines. cbn [mbind result_bind].
      rewrite decide_True by (by apply contains_spec).
      exists (line :: lines). split; [done|]. by constructor.
    + rewrite decide_False.
      2:{ rewrite <- contains_spec. by rewrite Hc. }
      by exists lines.
Qed.



(** ** The commands *)

Lemma fetch_csv_calls net : (fetch_csv net).1 = [HttpGet CSV_URL].
Proof.
  destruct net as [msg|[st [msg|data]]]; unfold fetch_csv; cbn;
    try case_bool_decide; done.
Qed.

Lemma for_each_call (chunks : list str) :
  for_each (fun chunk => call (FollowupSend chunk)) chunks
  = (List.map FollowupSend chunks, Ok tt).
Proof.
  induction chunks as [|c chunks IH]; [done|].
  cbn [for_each List.map]. rewrite IH. done.
Qed.

(** What [search] does in the authorized server, by the outcome of the
    fetch and of the comprehension. *)
Lemma search_run net i artist :
  guild_id i = Some ALLOWED_GUILD_ID ->
  search lower net i artist =
    match (fetch_csv net).2 with
    | Raise e => ([Defer; HttpGet CSV_URL; FollowupSend (exn_str e)], Ok tt)
    | Ok data =>
        match search_results lower data artist with
        | Raise e => ([Defer; HttpGet CSV_URL], Raise e)
        | Ok [] =>
            ([Defer; HttpGet CSV_URL;
              FollowupSend (lit "No results found for '" ++ artist ++ lit "'.")],
             Ok tt)
        | Ok results =>
            ([Defer; HttpGet CSV_URL]
               ++ List.map FollowupSend (paginate results 1800), Ok tt)
        end
    end.
Proof.
  intros Hi. unfold search. rewrite Hi, bool_decide_false by (by intros H).
  pose proof (fetch_csv_calls net) as Hcalls.
  destruct (fetch_csv net) as [t [data|e]]; cbn in Hcalls; subst t; [|done].
  cbn [snd]. unfold send_paginated_response.
  destruct (search_results lower data artist) as [[|line results]|e] eqn:E.
  - cbn. by rewrite E.
  - cbn. rewrite E. cbn. by rewrite for_each_call.
  - cbn. by rewrite E.
Qed.

(** The same for [list_trackers]. *)
Lemma list_trackers_run net i :
  guild_id i = Some ALLOWED_GUILD_ID ->
  list_trackers lower net i =
    match (fetch_csv net).2 with
    | Raise e => ([Defer; HttpGet CSV_URL; FollowupSend (exn_str e)], Ok tt)
    | Ok data =>
        match mapM (parse_csv_row lower) data with
        | Raise e => ([Defer; HttpGet CSV_URL], Raise e)
        | Ok [] =>
            ([Defer; HttpGet CSV_URL; FollowupSend (lit "No trackers found.")],
             Ok tt)
        | Ok results =>
            ([Defer; HttpGet CSV_URL]
               ++ List.map FollowupSend (paginate results 1800), Ok tt)
        end
    end.
Proof.
  intros Hi. unfold list_trackers. rewrite Hi, bool_decide_false by (by intros H).
  pose proof (fetch_csv_calls net) as Hcalls.
  destruct (fetch_csv net) as [t [data|e]]; cbn in Hcalls; subst t; [|done].
  cbn [snd]. unfold send_paginated_response.
  destruct (mapM (parse_csv_row lower) data) as [[|line results]|e] eqn:E.
  - cbn. by rewrite E.
  - cbn. rewrite E. cbn. by rewrite for_each_call.
  - cbn. by rewrite E.
Qed.

(** C9. A request from anywhere but the authorized server is answered with
    the fixed message and nothing else happens: that one reply is the whole
    of what [search] and [list_trackers] do, whatever the remote would have
    served, so no request to the dataset is made and no data is read. *)
Theorem unauthorized_rejected net i artist :
  guild_id i <> Some ALLOWED_GUILD_ID ->
  search lower net i artist = ([SendMessage UNAUTHORIZED true], Ok tt) /\
  list_trackers lower net i = ([SendMessage UNAUTHORIZED true], Ok tt) /\
  (HttpGet CSV_URL ∉ (search lower net i artist).1) /\
  (HttpGet CSV_URL ∉ (list_trackers lower net i).1).
Proof.
  intros Hi. unfold search, list_trackers. rewrite !bool_decide_true by done.
  split_and!; try done; cbn; rewrite elem_of_cons, elem_of_nil; by intros [|].
Qed.

(** C7. In the authorized server, when the fetch fails with an error [e],
    [search] and [list_trackers] hand exactly one message to the delivery
    capability, the text of [e], and return normally. For a reply whose
    status is not 200, such as 500, that text is
    [Failed to fetch CSV: HTTP] followed by the status. *)
Theorem fetch_failure_reported net i artist e :
  guild_id i = Some ALLOWED_GUILD_ID ->
  (fetch_csv net).2 = Raise e ->
  search lower net i artist
    = ([Defer; HttpGet CSV_URL; FollowupSend (exn_str e)], Ok tt) /\
  list_trackers lower net i
    = ([Defer; HttpGet CSV_URL; FollowupSend (exn_str e)], Ok tt) /\
  (forall resp, net = Replied resp -> status resp <> 200 ->
     exn_str e = lit "Failed to fetch CSV: HTTP " ++ str_of_int (status resp)).
Proof.
  intros Hi He. rewrite (search_run _ _ _ Hi), (list_trackers_run _ _ Hi), He.
  split_and!; try done.
  intros resp -> Hst. unfold fetch_csv in He.
  rewrite bool_decide_true in He by done. cbn in He. by injection He as <-.
Qed.

(** ** Rows that cannot be formatted *)

Lemma parse_csv_row_unusable row :
  unusable row = true -> exists e, parse_csv_row lower row = Raise e.
Proof.
  unfold unusable, parse_csv_row, getitem, REQUIRED. cbn [existsb].
  destruct (row !! lit "Artist Name") as [name|]; [|by eexists].
  destruct (row !! lit "Best") as [[best|]|]; [|by eexists..].
  cbn [mbind result_bind receiver].
  destruct (row !! lit "URL") as [[url|]|]; [|by eexists..].
  cbn [mbind result_bind GOOGLE_SHEETS_RE_match].
  destruct (row !! lit "Credit") as [credit|]; [|by eexists].
  destruct (row !! lit "Links Work") as [links_work|]; [|by eexists].
  destruct (row !! lit "Updated") as [updated|]; [|by eexists].
  done.
Qed.

Lemma mapM_result_cons {A B} (f : A -> result B) (x : A) (l : list A) :
  mapM f (x :: l) = y ← f x; k ← mapM f l; mret (y :: k).
Proof. reflexivity. Qed.

Lemma mapM_parse_unusable data row :
  row ∈ data -> unusable row = true ->
  exists e, mapM (parse_csv_row lower) data = Raise e.
Proof.
  intros Hin Hrow. induction Hin as [row data|row row' data Hin IH];
    rewrite mapM_result_cons.
  - destruct (parse_csv_row_unusable row Hrow) as [e ->]. by exists e.
  - destruct (IH Hrow) as [e ->].
    destruct (parse_csv_row lower row') as [line|e']; by eexists.
Qed.

Lemma matching_rows_unusable artist_lower data row :
  row ∈ data -> unusable row = true ->
  (forall name, row !! lit "Artist Name" = Some (VStr name) ->
                occurs_in artist_lower (lower name)) ->
  exists e, matching_rows lower artist_lower data = Raise e.
Proof.
  intros Hin Hrow Hhit. induction Hin as [row data|row row' data Hin IH].
  - cbn [matching_rows]. unfold getitem.
    destruct (row !! lit "Artist Name") as [[name|]|]; [|by eexists..].
    cbn [mbind result_bind receiver].
    rewrite (proj2 (contains_spec _ _) (Hhit name eq_refl)).
    destruct (parse_csv_row_unusable row Hrow) as [e ->]. by eexists.
  - destruct (IH Hrow Hhit) as [e He]. cbn [matching_rows].
    destruct (getitem row' _ ≫= _) as [name|e']; [|by eexists].
    cbn [mbind result_bind]. destruct (contains _ _); [|by eexists].
    destruct (parse_csv_row lower row') as [line|e']; [|by eexists].
    cbn [mbind result_bind]. rewrite He. by eexists.
Qed.

(** C3, as the code has it. A row that cannot be formatted (a required
    column is absent, or its best flag or URL is missing) is not skipped: in
    the authorized server, with the dataset fetched, [list_trackers] raises
    and delivers nothing; and so does [search] whenever that row has no
    artist name or its name matches the query. *)
Theorem unusable_row_aborts data row :
  row ∈ data ->
  unusable row = true ->
  (exists e,
     list_trackers lower (served data) authorized
       = ([Defer; HttpGet CSV_URL], Raise e)) /\
  (forall artist,
     (forall name, row !! lit "Artist Name" = Some (VStr name) ->
                   occurs_in (lower artist) (lower name)) ->
     exists e,
       search lower (served data) authorized artist
         = ([Defer; HttpGet CSV_URL], Raise e)).
Proof.
  intros Hin Hrow. split.
  - destruct (mapM_parse_unusable data row Hin Hrow) as [e He].
    exists e. rewrite list_trackers_run by done.
    change ((fetch_csv (served data)).2) with (Ok (A:=list (gmap str value)) data).
    cbn beta iota. by rewrite He.
  - intros artist Hhit.
    destruct (matching_rows_unusable (lower artist) data row Hin Hrow Hhit)
      as [e He].
    exists e. rewrite search_run by done.
    change ((fetch_csv (served data)).2) with (Ok (A:=list (gmap str value)) data).
    cbn beta iota. unfold search_results. by rewrite He.
Qed.

End Normalizer.

(** ** The fetch *)

(** C8, as the code has it. The fetch raises the exception that carries the
    status exactly when the status is not 200; on a reply with status 200
    it returns the rows parsed from the payload, or fails with the error
    that reading the payload raised. *)
Theorem fetch_csv_status resp :
  let outcome := (fetch_csv (Replied resp)).2 in
  (status resp <> 200 ->
     outcome = Raise (Exception (lit "Failed to fetch CSV: HTTP "
                                   ++ str_of_int (status resp)))) /\
  (status resp = 200 ->
     outcome = match body resp with
               | Rows data => Ok data
               | Unreadable msg => Raise (LibraryError msg)
               end) /\
  ((exists msg, outcome = Raise (Exception msg)) <-> status resp <> 200).
Proof.
  cbn zeta. unfold fetch_csv. split_and!.
  - intros Hst. by rewrite bool_decide_true.
  - intros Hst. rewrite bool_decide_false by (by intros H).
    by destruct (body resp).
  - case_bool_decide as Hst.
    + split; [done|]. intros _. by eexists.
    + split; [|done]. intros [msg H]. by destruct (body resp).
Qed.

(** C8, as the spec words it, fails: 204 is a success status, and the fetch
    of a reply with status 204 and a readable payload raises all the same. *)
Lemma fetch_csv_rejects_204 :
  success_status 204 /\
  fetch_csv (Replied {| status := 204; body := Rows [alice_row] |})
  = ([HttpGet CSV_URL],
     Raise (Exception (lit "Failed to fetch CSV: HTTP 204"))).
Proof. split; [unfold success_status; lia|reflexivity]. Qed.


(** C3, as the spec words it, fails: the sheet whose first data line is the
    single cell [Carol] and whose second is a complete line for Bob. Were
    the short row skipped, Bob would be delivered; the listing raises at the
    short row instead and delivers nothing, and so does a search that the
    row matches. *)
Lemma short_row_not_skipped :
  let data := [short_row; bob_row] in
  List.filter well_formed data = [bob_row] /\
  (exists sent,
     list_trackers ascii_lower (served [bob_row]) authorized
       = ([Defer; HttpGet CSV_URL; FollowupSend sent], Ok tt)) /\
  list_trackers ascii_lower (served data) authorized
    = ([Defer; HttpGet CSV_URL], Raise (AttributeError (lit "strip"))) /\
  search ascii_lower (served data) authorized (lit "car")
    = ([Defer; HttpGet CSV_URL], Raise (AttributeError (lit "strip"))).
Proof.
  cbn zeta. split_and!; [reflexivity| |reflexivity..].
  eexists. reflexivity.
Qed.

(** ** Scenarios *)

(** Two small records fit in one message. *)
Example list_two_rows :
  list_trackers ascii_lower (served [alice_row; bob_row]) authorized
  = ([Defer; HttpGet CSV_URL;
      FollowupSend
        (joined
           [record_text (STAR ++ lit "Alice" ++ STAR) (lit "https://example.com/a")
              (lit "ann") (lit "yes") (lit "2024-01-01");
            record_text (lit "Bob")
              (lit "https://trackerhub.cx/sh/1aBcDeFgHiJkLmNoPqRsTuVwXyZ0123456789-_abcdE")
              (lit "bo") (lit "no") (lit "2023-12-31")])],
     Ok tt).
Proof. reflexivity. Qed.

Example search_ali :
  search ascii_lower (served [alice_row; bob_row]) authorized (lit "ali")
  = ([Defer; HttpGet CSV_URL;
      FollowupSend
        (joined
           [record_text (STAR ++ lit "Alice" ++ STAR) (lit "https://example.com/a")
              (lit "ann") (lit "yes") (lit "2024-01-01")])],
     Ok tt).
Proof. reflexivity. Qed.

Example search_zzz :
  search ascii_lower (served [alice_row; bob_row]) authorized (lit "zzz")
  = ([Defer; HttpGet CSV_URL; FollowupSend (lit "No results found for 'zzz'.")],
     Ok tt).
Proof. reflexivity. Qed.

Example list_empty_sheet :
  list_trackers ascii_lower (served []) authorized
  = ([Defer; HttpGet CSV_URL; FollowupSend (lit "No trackers found.")], Ok tt).
Proof. reflexivity. Qed.

Example paginate_small :
  paginate [lit "abc"; lit "d"; lit "efghij"] 6
  = [lit "abc" ++ sep; lit "d" ++ sep; lit "efghij" ++ sep].
Proof. reflexivity. Qed.

Example paginate_oversized_first :
  paginate [lit "efghij"; lit "d"] 6 = [[]; lit "efghij" ++ sep; lit "d" ++ sep].
Proof. reflexivity. Qed.

(** ** The statements at sample inputs *)

Lemma bob_row_fields :
  has_fields bob_row (lit "Bob") (lit "no") SHEET_URL (lit "bo") (lit "no")
    (lit "2023-12-31").
Proof. repeat split. Qed.

Lemma alice_row_fields :
  has_fields alice_row (lit "Alice") (lit " Yes ") (lit "https://example.com/a")
    (lit "ann") (lit "yes") (lit "2024-01-01").
Proof. repeat split. Qed.



Lemma bob_url_is_sheets_link :
  is_sheets_link SHEET_URL (lit "1aBcDeFgHiJkLmNoPqRsTuVwXyZ0123456789-_abcdE").
Proof.
  exists (lit "/edit?usp=sharing"). split; [reflexivity|]. split; [reflexivity|].
  apply Forall_forall. intros c Hc. apply sheet_id_char_alphabet.
  assert (Hall : forallb sheet_id_char
                   (lit "1aBcDeFgHiJkLmNoPqRsTuVwXyZ0123456789-_abcdE") = true)
    by reflexivity.
  rewrite forallb_forall in Hall. by apply Hall, list_elem_of_In.
Qed.

Lemma alice_url_is_no_sheets_link (sheet_id : str) :
  ~ is_sheets_link (lit "https://example.com/a") sheet_id.
Proof. intros (rest & Hurl & _). vm_compute in Hurl. discriminate Hurl. Qed.

(** Bob's sheets link is shown as the trackerhub link with its id, the text
    after the id dropped; Alice's URL is shown as it is. *)
Lemma url_rewrite_witness :
  parse_csv_row ascii_lower bob_row =
    Ok (record_text (lit "Bob")
          (lit "https://trackerhub.cx/sh/1aBcDeFgHiJkLmNoPqRsTuVwXyZ0123456789-_abcdE")
          (lit "bo") (lit "no") (lit "2023-12-31")) /\
  parse_csv_row ascii_lower alice_row =
    Ok (record_text (STAR ++ lit "Alice" ++ STAR) (lit "https://example.com/a")
          (lit "ann") (lit "yes") (lit "2024-01-01")).
Proof.
  split.
  - exact (proj1 (url_rewrite ascii_lower bob_row _ _ _ _ _ _ bob_row_fields)
             _ bob_url_is_sheets_link).
  - exact (proj2 (url_rewrite ascii_lower alice_row _ _ _ _ _ _ alice_row_fields)
             alice_url_is_no_sheets_link).
Defined.

Lemma best_flag_decoration_witness :
  let starred :=
    Ok (record_text (STAR ++ lit "Alice" ++ STAR) (shown_url (lit "https://example.com/a"))
          (lit "ann") (lit "yes") (lit "2024-01-01")) in
  let plain :=
    Ok (record_text (lit "Alice") (shown_url (lit "https://example.com/a"))
          (lit "ann") (lit "yes") (lit "2024-01-01")) in
  (forall s, is_ascii s -> ascii_lower s = ascii_lower s) /\
  has_fields alice_row (lit "Alice") (lit " Yes ") (lit "https://example.com/a")
    (lit "ann") (lit "yes") (lit "2024-01-01") /\
  (parse_csv_row ascii_lower alice_row = starred
     <-> ascii_lower (strip (lit " Yes ")) = lit "yes") /\
  (parse_csv_row ascii_lower alice_row = plain
     <-> ascii_lower (strip (lit " Yes ")) <> lit "yes") /\
  (lit " Yes " ∈ [lit "YES"; lit "Yes"; lit " yes "] ->
     parse_csv_row ascii_lower alice_row = starred) /\
  (lit " Yes " ∈ [lit "no"; lit ""; lit "maybe"] ->
     parse_csv_row ascii_lower alice_row = plain).
Proof.
  cbn zeta. split; [reflexivity|]. split; [exact alice_row_fields|].
  apply (best_flag_decoration ascii_lower alice_row).
  - reflexivity.
  - exact alice_row_fields.
Defined.

Lemma paginate_bounded_witness :
  0 <= 6 /\
  exists groups : list (list str),
    concat groups = [lit "abc"; lit "d"; lit "efghij"] /\
    paginate [lit "abc"; lit "d"; lit "efghij"] 6 = List.map joined groups /\
    Forall (fun g =>
              len (joined g) <= 6 \/
              exists l, g = [l] /\ joined g = l ++ sep /\ len (l ++ sep) > 6)
      groups.
Proof.
  split; [lia|]. apply (paginate_bounded [lit "abc"; lit "d"; lit "efghij"] 6). lia.
Defined.

Lemma paginate_leading_empty_witness :
  len (lit "efghij") + 2 > 6 /\
  exists more,
    paginate [lit "efghij"; lit "d"] 6 = [] :: (lit "efghij" ++ sep) :: more.
Proof.
  split; [reflexivity|].
  apply (paginate_leading_empty (lit "efghij") [lit "d"] 6). reflexivity.
Defined.

Lemma fetch_failure_reported_witness :
  let e := Exception (lit "Failed to fetch CSV: HTTP 500") in
  guild_id authorized = Some ALLOWED_GUILD_ID /\
  (fetch_csv http_500).2 = Raise e /\
  search ascii_lower http_500 authorized (lit "ali")
    = ([Defer; HttpGet CSV_URL; FollowupSend (exn_str e)], Ok tt) /\
  list_trackers ascii_lower http_500 authorized
    = ([Defer; HttpGet CSV_URL; FollowupSend (exn_str e)], Ok tt) /\
  (forall resp, http_500 = Replied resp -> status resp <> 200 ->
     exn_str e = lit "Failed to fetch CSV: HTTP " ++ str_of_int (status resp)).
Proof.
  cbn zeta. split; [reflexivity|]. split; [reflexivity|].
  apply (fetch_failure_reported ascii_lower http_500 authorized (lit "ali"));
    reflexivity.
Defined.

Lemma unauthorized_rejected_witness :
  guild_id elsewhere <> Some ALLOWED_GUILD_ID /\
  search ascii_lower (served [alice_row]) elsewhere (lit "ali")
    = ([SendMessage UNAUTHORIZED true], Ok tt) /\
  list_trackers ascii_lower (served [alice_row]) elsewhere
    = ([SendMessage UNAUTHORIZED true], Ok tt) /\
  (HttpGet CSV_URL ∉ (search ascii_lower (served [alice_row]) elsewhere (lit "ali")).1) /\
  (HttpGet CSV_URL ∉ (list_trackers ascii_lower (served [alice_row]) elsewhere).1).
Proof.
  split; [discriminate|].
  apply (unauthorized_rejected ascii_lower (served [alice_row]) elsewhere (lit "ali")).
  discriminate.
Defined.

Lemma unusable_row_aborts_witness :
  let data := [short_row; bob_row] in
  short_row ∈ data /\
  unusable short_row = true /\
  (exists e,
     list_trackers ascii_lower (served data) authorized
       = ([Defer; HttpGet CSV_URL], Raise e)) /\
  (forall artist,
     (forall name, short_row !! lit "Artist Name" = Some (VStr name) ->
                   occurs_in (ascii_lower artist) (ascii_lower name)) ->
     exists e,
       search ascii_lower (served data) authorized artist
         = ([Defer; HttpGet CSV_URL], Raise e)).
Proof.
  cbn zeta. split; [by left|]. split; [reflexivity|].
  apply (unusable_row_aborts ascii_lower [short_row; bob_row] short_row).
  - by left.
  - reflexivity.
Defined.

(** * Further properties of the code *)

(** ** The chunks of [send_paginated_response] *)

Lemma fold_chunk_step_chunks_from n lines chunks cur :
  (let '(chunks', cur') := fold_left (chunk_step n) lines (chunks, cur) in
   match cur' with
   | [] => chunks'
   | _ => chunks' ++ [cur']
   end) = chunks ++ chunks_from n cur lines.
Proof.
  revert chunks cur. induction lines as [|l lines IH]; intros chunks cur.
  - cbn. destruct cur; by rewrite ?app_nil_r.
  - cbn [fold_left chunks_from chunk_step]. case_bool_decide.
    + rewrite IH. by rewrite <- app_assoc.
    + by rewrite IH.
Qed.

Lemma paginate_chunks_from lines n : paginate lines n = chunks_from n [] lines.
Proof. unfold paginate. apply (fold_chunk_step_chunks_from n lines [] []). Qed.

Lemma app_sep_nonempty (a b : str) : a ++ b ++ sep <> [].
Proof.
  intros H. apply (f_equal (@length N)) in H.
  rewrite !length_app in H. simpl in H. lia.
Qed.

Lemma chunks_from_nonempty n lines :
  forall cur, cur <> [] -> [] ∉ chunks_from n cur lines.
Proof.
  induction lines as [|l lines IH]; intros cur Hcur; cbn [chunks_from].
  - destruct cur; [done|]. rewrite elem_of_cons, elem_of_nil. by intros [|].
  - case_bool_decide.
    + rewrite elem_of_cons. intros [Hc|Hin]; [done|].
      revert Hin. apply IH, app_sep_nonempty.
    + apply IH, app_sep_nonempty.
Qed.

Lemma chunks_from_head n lines :
  forall cur, cur <> [] ->
  exists c rest, chunks_from n cur lines = c :: rest /\ len cur <= len c.
Proof.
  induction lines as [|l lines IH]; intros cur Hcur; cbn [chunks_from].
  - destruct cur as [|x cur]; [done|]. eexists _, []. split; [done|lia].
  - case_bool_decide.
    + eexists _, _. split; [done|lia].
    + destruct (IH (cur ++ l ++ sep) (app_sep_nonempty _ _)) as (c & rest & -> & Hle).
      exists c, rest. split; [done|]. rewrite len_app in Hle.
      pose proof (len_nonneg (l ++ sep)). lia.
Qed.

(** X1. The empty string is among the chunks exactly when there is a first
    record and it is oversized; and it can only be the first chunk. *)
Theorem paginate_empty_chunk (lines : list str) (chunk_size : Z) :
  ([] ∈ paginate lines chunk_size <->
     exists line rest, lines = line :: rest /\ len line + 2 > chunk_size) /\
  (forall i, (0 < i)%nat -> paginate lines chunk_size !! i <> Some []).
Proof.
  rewrite paginate_chunks_from. destruct lines as [|l lines]; cbn [chunks_from].
  - split.
    + rewrite elem_of_nil. split; [done|]. by intros (? & ? & ? & _).
    + by intros [|i] _.
  - change (len []) with 0. case_bool_decide as Hbig.
    + split.
      * split; [intros _; exists l, lines; split; [done|lia]|intros _; by left].
      * intros [|i] Hi Hlk; [lia|]. cbn in Hlk.
        apply (chunks_from_nonempty chunk_size lines (l ++ sep));
          [apply (app_sep_nonempty [])|].
        by eapply list_elem_of_lookup_2.
    + assert (Hno : [] ∉ chunks_from chunk_size ([] ++ l ++ sep) lines)
        by apply chunks_from_nonempty, app_sep_nonempty.
      split.
      * split; [done|]. intros (l' & rest & [= <- <-] & Hl). lia.
      * intros i _ Hlk. apply Hno. by eapply list_elem_of_lookup_2.
Qed.

Lemma chunks_from_fits n lines :
  Forall (fun line => len line + 2 <= n) lines ->
  forall cur, len cur <= n ->
  Forall (fun c => 0 < len c <= n) (chunks_from n cur lines).
Proof.
  induction 1 as [|l lines Hl Hlines IH]; intros cur Hcur; cbn [chunks_from].
  - destruct cur as [|x cur]; constructor; [|constructor].
    split; [|done]. unfold len. simpl. lia.
  - pose proof (len_nonneg cur). pose proof (len_nonneg l).
    case_bool_decide.
    + constructor; [lia|]. apply IH. rewrite app_nil_l, len_app, len_sep. lia.
    + apply IH. rewrite !len_app, len_sep. lia.
Qed.

(** X2. When every record fits (its length plus the two separator characters
    is at most the chunk size), every chunk is non-empty and has at most
    [chunk_size] characters. *)
Theorem paginate_all_fit (lines : list str) (chunk_size : Z) :
  Forall (fun line => len line + 2 <= chunk_size) lines ->
  Forall (fun c => 0 < len c <= chunk_size) (paginate lines chunk_size).
Proof.
  intros Hfit. rewrite paginate_chunks_from.
  destruct lines as [|l lines]; [constructor|].
  apply chunks_from_fits; [done|].
  inversion Hfit; subst. pose proof (len_nonneg l). change (len []) with 0. lia.
Qed.

Lemma chunks_from_greedy n lines :
  forall cur i c1 c2,
    chunks_from n cur lines !! i = Some c1 ->
    chunks_from n cur lines !! S i = Some c2 ->
    len c1 + len c2 > n.
Proof.
  induction lines as [|l lines IH]; intros cur i c1 c2; cbn [chunks_from].
  - destruct cur; [done|]. by destruct i.
  - case_bool_decide as Hbig; [|apply IH].
    destruct i as [|i]; [|apply IH].
    intros Hc1 Hc2. injection Hc1 as <-.
    change (chunks_from n ([] ++ l ++ sep) lines !! 0%nat = Some c2) in Hc2.
    destruct (chunks_from_head n lines ([] ++ l ++ sep) (app_sep_nonempty _ _))
      as (c & rest & Heq & Hle).
    rewrite Heq in Hc2. injection Hc2 as <-.
    rewrite app_nil_l, len_app, len_sep in Hle. lia.
Qed.

(** X3. The packing is greedy: two consecutive chunks never fit together in
    one chunk, so no message could have been saved by merging neighbours. *)
Theorem paginate_greedy (lines : list str) (chunk_size : Z) (i : nat) (c1 c2 : str) :
  paginate lines chunk_size !! i = Some c1 ->
  paginate lines chunk_size !! S i = Some c2 ->
  len c1 + len c2 > chunk_size.
Proof. rewrite paginate_chunks_from. apply chunks_from_greedy. Qed.

Lemma chunks_from_length n lines :
  forall cur, (length (chunks_from n cur lines) <= S (length lines))%nat.
Proof.
  induction lines as [|l lines IH]; intros cur; cbn [chunks_from].
  - destruct cur; simpl; lia.
  - case_bool_decide;
      [specialize (IH ([] ++ l ++ sep))|specialize (IH (cur ++ l ++ sep))];
      cbn [length]; lia.
Qed.

Lemma chunks_from_single n lines :
  forall cur, len cur + len (joined lines) <= n -> cur ++ joined lines <> [] ->
  chunks_from n cur lines = [cur ++ joined lines].
Proof.
  induction lines as [|l lines IH]; intros cur Hlen Hne; cbn [chunks_from].
  - change (joined []) with (@nil N) in *. rewrite app_nil_r in *.
    by destruct cur.
  - change (joined (l :: lines)) with ((l ++ sep) ++ joined lines) in *.
    rewrite !len_app, len_sep in Hlen. pose proof (len_nonneg (joined lines)).
    rewrite bool_decide_false by lia.
    rewrite IH.
    + by rewrite <- !app_assoc.
    + rewrite !len_app, len_sep. lia.
    + intros Hnil. apply (f_equal (@length N)) in Hnil.
      rewrite !length_app in Hnil. simpl in Hnil. lia.
Qed.

(** X4. There is at most one chunk more than there are records, and none
    when there are no records; and when the whole joined text fits in
    [chunk_size], it is sent as a single chunk. *)
Theorem paginate_count (lines : list str) (chunk_size : Z) :
  (length (paginate lines chunk_size) <= S (length lines))%nat /\
  (paginate lines chunk_size = [] <-> lines = []) /\
  (lines <> [] -> len (joined lines) <= chunk_size ->
     paginate lines chunk_size = [joined lines]).
Proof.
  rewrite paginate_chunks_from. split_and!.
  - apply chunks_from_length.
  - split; [|by intros ->]. destruct lines as [|l lines]; [done|].
    cbn [chunks_from]. case_bool_decide; [done|].
    destruct (chunks_from_head chunk_size lines ([] ++ l ++ sep)
                (app_sep_nonempty _ _)) as (c & rest & -> & _). done.
  - intros Hne Hlen. rewrite (chunks_from_single chunk_size lines []); [done| |].
    + change (len []) with 0. lia.
    + destruct lines as [|l lines]; [done|]. rewrite app_nil_l.
      change (joined (l :: lines)) with ((l ++ sep) ++ joined lines).
      intros Hnil. apply (f_equal (@length N)) in Hnil.
      rewrite !length_app in Hnil. simpl in Hnil. lia.
Qed.


(** ** Formatting one row *)

Lemma sheets_group_rewritten (sheet_id : str) :
  sheets_group (lit "https://trackerhub.cx/sh/" ++ sheet_id) = None.
Proof. reflexivity. Qed.

Lemma shown_url_idempotent (url : str) : shown_url (shown_url url) = shown_url url.
Proof.
  unfold shown_url at 2 3. destruct (sheets_group url) as [sheet_id|] eqn:E.
  - unfold shown_url. by rewrite sheets_group_rewritten.
  - unfold shown_url. by rewrite E.
Qed.

Section Rows.

Variable lower : str -> str.

(** X5. [parse_csv_row] returns a record exactly for the rows that have all
    six columns and a best flag and a URL that are strings; for every other
    row it raises. *)
Theorem parse_csv_row_succeeds_iff (row : gmap str value) :
  (exists line, parse_csv_row lower row = Ok line) <-> unusable row = false.
Proof.
  split.
  - intros [line Hline]. destruct (unusable row) eqn:E; [|done].
    destruct (parse_csv_row_unusable lower row E) as [e He]. congruence.
  - unfold unusable, parse_csv_row, getitem, REQUIRED. cbn [existsb].
    destruct (row !! lit "Artist Name") as [name|],
             (row !! lit "Best") as [[best|]|],
             (row !! lit "URL") as [[url|]|],
             (row !! lit "Credit") as [credit|],
             (row !! lit "Links Work") as [links_work|],
             (row !! lit "Updated") as [updated|];
      cbn [orb]; try discriminate.
    intros _. cbn [mbind result_bind receiver GOOGLE_SHEETS_RE_match].
    by eexists.
Qed.

(** X6. When the best flag and the URL are strings, the record carries the
    credit, link-status and updated cells as they are, in that order under
    the title line; a cell that is [None] (the name included) is written as
    the text [None], not rejected. *)
Theorem parse_csv_row_renders (row : gmap str value)
    (name credit links_work updated : value) (best url : str) :
  row !! lit "Artist Name" = Some name ->
  row !! lit "Best" = Some (VStr best) ->
  row !! lit "URL" = Some (VStr url) ->
  row !! lit "Credit" = Some credit ->
  row !! lit "Links Work" = Some links_work ->
  row !! lit "Updated" = Some updated ->
  parse_csv_row lower row =
    Ok (record_text (shown_name lower (format name) best) (shown_url url)
          (format credit) (format links_work) (format updated)) /\
  format VNone = lit "None".
Proof.
  intros Hn Hb Hu Hc Hl Hd. split; [|done].
  unfold parse_csv_row, getitem. rewrite Hn, Hb, Hu, Hc, Hl, Hd.
  cbn [mbind result_bind receiver GOOGLE_SHEETS_RE_match].
  unfold shown_name, shown_url, record_text.
  destruct (sheets_group url); case_bool_decide; cbn [format];
    by rewrite <- ?app_assoc.
Qed.

(** X7. The [KeyError] names the first absent column in reading order
    (artist name, best, URL, credit, links work, updated): when the columns
    before it hold strings, [parse_csv_row] raises [KeyError] for exactly
    that column, whatever the later ones hold. *)
Theorem parse_csv_row_first_missing (row : gmap str value)
    (before after : list str) (key : str) :
  REQUIRED = before ++ key :: after ->
  Forall (fun k => exists s, row !! k = Some (VStr s)) before ->
  row !! key = None ->
  parse_csv_row lower row = Raise (KeyError key).
Proof.
  intros Hreq Hbefore Hkey. unfold REQUIRED in Hreq.
  unfold parse_csv_row, getitem.
  repeat (destruct before as [|? before];
          [injection Hreq as <- _; rewrite ?Hkey; done|];
          injection Hreq as <- Hreq;
          apply Forall_cons in Hbefore as [[? ->] Hbefore];
          cbn [mbind result_bind receiver GOOGLE_SHEETS_RE_match]).
  by destruct before.
Qed.

(** X8. Rewriting a URL is idempotent: a row whose URL cell already holds the
    URL that a record shows gives the same record, so a trackerhub link is
    never rewritten again. *)
Theorem parse_csv_row_url_idempotent (row row' : gmap str value)
    (name best url credit links_work updated : str) :
  has_fields row name best url credit links_work updated ->
  has_fields row' name best (shown_url url) credit links_work updated ->
  parse_csv_row lower row' = parse_csv_row lower row.
Proof.
  intros H H'.
  rewrite (parse_csv_row_fields lower _ _ _ _ _ _ _ H),
          (parse_csv_row_fields lower _ _ _ _ _ _ _ H').
  by rewrite shown_url_idempotent.
Qed.

(** X9. The id must be complete: a URL with the sheets prefix followed by
    fewer than 44 characters, or with a character outside [[A-Za-z0-9_-]]
    among the 44 that follow the prefix, is shown unchanged. *)
Theorem parse_csv_row_incomplete_id (row : gmap str value)
    (name best rest credit links_work updated : str) :
  has_fields row name best (SHEETS_PREFIX ++ rest) credit links_work updated ->
  (length rest < 44)%nat \/
    (exists i c, (i < 44)%nat /\ rest !! i = Some c /\ sheet_id_char c = false) ->
  parse_csv_row lower row =
    Ok (record_text (shown_name lower name best) (SHEETS_PREFIX ++ rest)
          credit links_work updated).
Proof.
  intros H Hbad. rewrite (parse_csv_row_fields lower _ _ _ _ _ _ _ H).
  f_equal. f_equal. unfold shown_url, sheets_group.
  rewrite strip_prefix_app. cbn zeta.
  destruct ((length (take 44 rest) =? 44)%nat && _) eqn:Hc; [|done].
  exfalso. apply andb_true_iff in Hc as [Hlen Hcls].
  apply Nat.eqb_eq in Hlen. rewrite length_take in Hlen.
  destruct Hbad as [Hshort|(i & c & Hi & Hlk & Hch)]; [lia|].
  rewrite forallb_forall in Hcls.
  assert (Hin : In c (take 44 rest)).
  { apply list_elem_of_In, list_elem_of_lookup. exists i. by rewrite lookup_take_lt. }
  specialize (Hcls c Hin). congruence.
Qed.

End Rows.

(** ** What the commands deliver *)

Lemma followups_sent (sent : list str) :
  followups (Defer :: HttpGet CSV_URL :: List.map FollowupSend sent) = sent.
Proof.
  unfold followups. cbn [flat_map app].
  induction sent as [|c sent IH]; [done|]. cbn [List.map flat_map app]. by rewrite IH.
Qed.

Lemma chunks_from_text n lines :
  forall cur, concat (chunks_from n cur lines) = cur ++ joined lines.
Proof.
  induction lines as [|l lines IH]; intros cur; cbn [chunks_from].
  - change (joined []) with (@nil N). destruct cur; cbn; by rewrite ?app_nil_r.
  - change (joined (l :: lines)) with ((l ++ sep) ++ joined lines).
    case_bool_decide; [cbn [concat]|]; rewrite IH; by rewrite <- ?app_assoc.
Qed.

Lemma chunks_from_cons n l lines : chunks_from n [] (l :: lines) <> [].
Proof.
  cbn [chunks_from]. case_bool_decide; [done|].
  destruct (chunks_from_head n lines ([] ++ l ++ sep) (app_sep_nonempty _ _))
    as (c & rest & -> & _). done.
Qed.

Lemma chunks_from_ends n lines :
  forall cur, cur = [] \/ last cur = Some 10%N ->
  Forall (fun c => c = [] \/ last c = Some 10%N) (chunks_from n cur lines).
Proof.
  assert (Hsep : forall a b : str, last (a ++ b ++ sep) = Some 10%N).
  { intros a b. by rewrite !last_app. }
  induction lines as [|l lines IH]; intros cur Hcur; cbn [chunks_from].
  - destruct cur; constructor; [done|constructor].
  - case_bool_decide; [constructor; [done|]|]; apply IH; right; apply Hsep.
Qed.

Section Delivery.

Variable lower : str -> str.

Lemma mapM_parse_well_formed data :
  forallb well_formed data = true ->
  exists lines,
    mapM (parse_csv_row lower) data = Ok lines /\
    Forall2 (fun row line => parse_csv_row lower row = Ok line) data lines.
Proof.
  induction data as [|row data IH]; intros Hwf.
  - exists []. split; [done|constructor].
  - cbn [forallb] in Hwf. apply andb_true_iff in Hwf as [Hrow Hdata].
    destruct (IH Hdata) as (lines & Hlines & Hall).
    destruct (parse_csv_row_well_formed lower row Hrow) as [line Hline].
    exists (line :: lines). rewrite mapM_result_cons, Hline, Hlines.
    split; [done|]. by constructor.
Qed.

Lemma mapM_parse_length data lines :
  mapM (parse_csv_row lower) data = Ok lines -> length lines = length data.
Proof.
  revert lines. induction data as [|row data IH]; intros lines.
  - by intros [= <-].
  - rewrite mapM_result_cons.
    destruct (parse_csv_row lower row) as [line|e]; [|done].
    destruct (mapM (parse_csv_row lower) data) as [rest|e]; [|done].
    intros [= <-]. cbn [length]. by rewrite (IH rest).
Qed.

(** X10. In the authorized server, a fetched sheet whose rows all have their
    six cells is delivered whole: [list_trackers] formats every row, in
    order, sends the chunks of those records and nothing else, and the
    messages put end to end are the records joined with their separators. *)
Theorem list_trackers_delivers_all (i : Interaction) (data : list (gmap str value)) :
  guild_id i = Some ALLOWED_GUILD_ID ->
  data <> [] ->
  forallb well_formed data = true ->
  exists lines,
    Forall2 (fun row line => parse_csv_row lower row = Ok line) data lines /\
    list_trackers lower (served data) i
      = (Defer :: HttpGet CSV_URL :: List.map FollowupSend (paginate lines 1800),
         Ok tt) /\
    concat (followups (list_trackers lower (served data) i).1) = joined lines.
Proof.
  intros Hi Hne Hwf.
  destruct (mapM_parse_well_formed data Hwf) as (lines & Hlines & Hall).
  assert (Hrun : list_trackers lower (served data) i
            = (Defer :: HttpGet CSV_URL :: List.map FollowupSend (paginate lines 1800),
               Ok tt)).
  { rewrite (list_trackers_run lower _ _ Hi).
    change ((fetch_csv (served data)).2) with (Ok (A:=list (gmap str value)) data).
    cbn beta iota. rewrite Hlines.
    destruct lines as [|line lines]; [|done].
    apply Forall2_nil_inv_r in Hall. done. }
  exists lines. split_and!; [done..|].
  rewrite Hrun. cbn [fst]. rewrite followups_sent, paginate_chunks_from.
  apply chunks_from_text.
Qed.

(** X11. In the authorized server, on a fetched sheet whose rows all have
    their six cells and of which at least one matches, [search] sends the
    chunks of the records of the first five matching rows and nothing else;
    the messages put end to end are those records joined with their
    separators. *)
Theorem search_delivers_matches (i : Interaction) (data : list (gmap str value))
    (artist : str) :
  let hit row := occurs_in (lower artist) (lower (raw_name row)) in
  guild_id i = Some ALLOWED_GUILD_ID ->
  forallb well_formed data = true ->
  filter hit data <> [] ->
  exists lines,
    Forall2 (fun row line => parse_csv_row lower row = Ok line)
      (take 5 (filter hit data)) lines /\
    search lower (served data) i artist
      = (Defer :: HttpGet CSV_URL :: List.map FollowupSend (paginate lines 1800),
         Ok tt) /\
    concat (followups (search lower (served data) i artist).1) = joined lines.
Proof.
  intros hit Hi Hwf Hne.
  destruct (matching_rows_well_formed lower (lower artist) data Hwf)
    as (lines & Hlines & Hall).
  fold hit in Hall.
  assert (Hrun : search lower (served data) i artist
            = (Defer :: HttpGet CSV_URL
                 :: List.map FollowupSend (paginate (take 5 lines) 1800), Ok tt)).
  { rewrite (search_run lower _ _ _ Hi).
    change ((fetch_csv (served data)).2) with (Ok (A:=list (gmap str value)) data).
    cbn beta iota. unfold search_results. rewrite Hlines.
    destruct lines as [|line lines]; [|done].
    apply Forall2_nil_inv_r in Hall. done. }
  exists (take 5 lines). split_and!; [by apply Forall2_take|done|].
  rewrite Hrun. cbn [fst]. rewrite followups_sent, paginate_chunks_from.
  apply chunks_from_text.
Qed.

(** X12. In the authorized server, with the sheet fetched, [list_trackers]
    answers [No trackers found.] exactly when the sheet has no data row. *)
Theorem list_trackers_empty_message (i : Interaction) (data : list (gmap str value)) :
  guild_id i = Some ALLOWED_GUILD_ID ->
  (list_trackers lower (served data) i
     = ([Defer; HttpGet CSV_URL; FollowupSend (lit "No trackers found.")], Ok tt)
   <-> data = []).
Proof.
  intros Hi. rewrite (list_trackers_run lower _ _ Hi).
  change ((fetch_csv (served data)).2) with (Ok (A:=list (gmap str value)) data).
  cbn beta iota. split; [|by intros ->].
  destruct data as [|row data]; [done|].
  destruct (mapM (parse_csv_row lower) (row :: data)) as [lines|e] eqn:E; [|done].
  apply mapM_parse_length in E. destruct lines as [|line lines]; [done|].
  rewrite paginate_chunks_from.
  pose proof (chunks_from_ends 1800 (line :: lines) [] (or_introl eq_refl)) as Hends.
  destruct (chunks_from 1800 [] (line :: lines)) as [|c [|c' rest]]; [done| |done].
  intros [= ->]. apply Forall_inv in Hends as [H|H]; done.
Qed.

(** X13. In the authorized server, on a fetched sheet whose rows all have
    their six cells, [search] answers [No results found for '<artist>'.],
    with the query as it was typed, exactly when there is no row whose
    name, lower-cased by [str.lower], contains the query lower-cased by
    [str.lower]. *)
Theorem search_no_results_message (i : Interaction) (data : list (gmap str value))
    (artist : str) :
  let hit row := occurs_in (lower artist) (lower (raw_name row)) in
  guild_id i = Some ALLOWED_GUILD_ID ->
  forallb well_formed data = true ->
  (search lower (served data) i artist
     = ([Defer; HttpGet CSV_URL;
         FollowupSend (lit "No results found for '" ++ artist ++ lit "'.")], Ok tt)
   <-> filter hit data = []).
Proof.
  intros hit Hi Hwf.
  destruct (matching_rows_well_formed lower (lower artist) data Hwf)
    as (lines & Hlines & Hall).
  fold hit in Hall. rewrite (search_run lower _ _ _ Hi).
  change ((fetch_csv (served data)).2) with (Ok (A:=list (gmap str value)) data).
  cbn beta iota. unfold search_results. rewrite Hlines. cbn [fmap result_fmap].
  split.
  - destruct lines as [|line lines]; [intros _; by apply Forall2_nil_inv_r in Hall|].
    rewrite paginate_chunks_from. cbn [take].
    pose proof (chunks_from_ends 1800 (line :: take 4 lines) [] (or_introl eq_refl))
      as Hends.
    destruct (chunks_from 1800 [] (line :: take 4 lines)) as [|c [|c' rest]];
      [done| |done].
    cbn [List.map app]. intros Hsent.
    assert (Hc : c = lit "No results found for '" ++ artist ++ lit "'.")
      by congruence.
    apply Forall_inv in Hends as [H|H]; rewrite Hc in H.
    + apply (f_equal (@length N)) in H. rewrite !length_app in H.
      change (length (lit "'.")) with 2%nat in H. simpl in H. lia.
    + rewrite !last_app in H. vm_compute in H. done.
  - intros Hnone. rewrite Hnone in Hall. apply Forall2_nil_inv_l in Hall.
    by subst lines.
Qed.

(** X14. A row whose artist name is a string that does not contain the
    query plays no part in a search: with it or without it the result is the
    same, whatever its other cells are, missing ones included. *)
Theorem search_ignores_other_rows (before after : list (gmap str value))
    (row : gmap str value) (name artist : str) :
  row !! lit "Artist Name" = Some (VStr name) ->
  ~ occurs_in (lower artist) (lower name) ->
  search_results lower (before ++ row :: after) artist
  = search_results lower (before ++ after) artist.
Proof.
  intros Hname Hmiss. unfold search_results. f_equal.
  induction before as [|row' before IH].
  - cbn [app matching_rows]. unfold getitem. rewrite Hname.
    cbn [mbind result_bind receiver].
    destruct (contains (lower artist) (lower name)) eqn:Hc; [|done].
    by apply contains_spec in Hc.
  - cbn [app matching_rows]. by rewrite IH.
Qed.

(** X15. In the authorized server, whatever the remote does, both commands
    first acknowledge the interaction, then make exactly one request, to
    [CSV_URL], and after that only send follow-up messages: at least one
    when the command returns, and none at all when it raises. *)
Theorem commands_answered (net : remote) (i : Interaction) (artist : str) :
  guild_id i = Some ALLOWED_GUILD_ID ->
  answered (search lower net i artist) /\
  answered (list_trackers lower net i).
Proof.
  intros Hi. unfold answered.
  rewrite (search_run lower _ _ _ Hi), (list_trackers_run lower _ _ Hi).
  assert (Hsome : forall line lines,
            paginate (line :: lines) 1800 <> []).
  { intros line lines. rewrite paginate_chunks_from. apply chunks_from_cons. }
  destruct ((fetch_csv net).2) as [data|e].
  - split.
    + destruct (search_results lower data artist) as [[|line lines]|e].
      * eexists [_]. by split_and!.
      * exists (paginate (line :: lines) 1800). split_and!; [done| |done].
        intros _. apply Hsome.
      * exists []. by split_and!.
    + destruct (mapM (parse_csv_row lower) data) as [[|line lines]|e].
      * eexists [_]. by split_and!.
      * exists (paginate (line :: lines) 1800). split_and!; [done| |done].
        intros _. apply Hsome.
      * exists []. by split_and!.
  - split; eexists [_]; by split_and!.
Qed.

(** X16. The empty query matches every row: on a sheet whose rows all have
    their six cells, [search_results] for the empty string is the records of
    the first five rows of the sheet. *)
Theorem search_empty_query (data : list (gmap str value)) :
  lower [] = [] ->
  forallb well_formed data = true ->
  exists lines,
    search_results lower data [] = Ok lines /\
    Forall2 (fun row line => parse_csv_row lower row = Ok line)
      (take 5 data) lines.
Proof.
  intros Hlower Hwf.
  destruct (matching_rows_well_formed lower (lower []) data Hwf)
    as (lines & Hlines & Hall).
  exists (take 5 lines). unfold search_results. rewrite Hlines. split; [done|].
  apply Forall2_take.
  replace (filter (fun row => occurs_in (lower []) (lower (raw_name row))) data)
    with data in Hall; [done|].
  rewrite Hlower. clear. induction data as [|row data IH]; [done|].
  rewrite filter_cons_True; [by f_equal|]. by exists [], (lower (raw_name row)).
Qed.

End Delivery.

(** ** The further properties at sample inputs *)

Lemma paginate_all_fit_witness :
  Forall (fun line => len line + 2 <= 6) [lit "abc"; lit "d"; lit "ef"] /\
  Forall (fun c => 0 < len c <= 6) (paginate [lit "abc"; lit "d"; lit "ef"] 6).
Proof.
  assert (H : Forall (fun line => len line + 2 <= 6) [lit "abc"; lit "d"; lit "ef"]).
  { repeat constructor; vm_compute; discriminate. }
  split; [exact H|]. exact (paginate_all_fit _ 6 H).
Defined.

Lemma paginate_greedy_witness :
  paginate [lit "abc"; lit "d"; lit "efghij"] 6 !! 0%nat = Some (lit "abc" ++ sep) /\
  paginate [lit "abc"; lit "d"; lit "efghij"] 6 !! 1%nat = Some (lit "d" ++ sep) /\
  len (lit "abc" ++ sep) + len (lit "d" ++ sep) > 6.
Proof.
  split; [reflexivity|]. split; [reflexivity|].
  apply (paginate_greedy [lit "abc"; lit "d"; lit "efghij"] 6 0); reflexivity.
Defined.

Lemma parse_csv_row_renders_witness :
  blank_row !! lit "Artist Name" = Some VNone /\
  parse_csv_row ascii_lower blank_row =
    Ok (record_text (shown_name ascii_lower (format VNone) (lit "yes"))
          (shown_url (lit "https://example.com/x"))
          (format VNone) (format VNone) (format VNone)) /\
  format VNone = lit "None".
Proof.
  split; [reflexivity|].
  apply (parse_csv_row_renders ascii_lower blank_row); reflexivity.
Defined.

Lemma parse_csv_row_first_missing_witness :
  REQUIRED = [lit "Artist Name"; lit "Best"; lit "URL"]
               ++ lit "Credit" :: [lit "Links Work"; lit "Updated"] /\
  no_credit_row !! lit "Credit" = None /\
  parse_csv_row ascii_lower no_credit_row = Raise (KeyError (lit "Credit")).
Proof.
  split; [reflexivity|]. split; [reflexivity|].
  apply (parse_csv_row_first_missing ascii_lower no_credit_row
           [lit "Artist Name"; lit "Best"; lit "URL"]
           [lit "Links Work"; lit "Updated"] (lit "Credit")).
  - reflexivity.
  - repeat constructor; eexists; reflexivity.
  - reflexivity.
Defined.

Lemma bob_row_rewritten_fields :
  has_fields bob_row_rewritten (lit "Bob") (lit "no") (shown_url SHEET_URL)
    (lit "bo") (lit "no") (lit "2023-12-31").
Proof. repeat split. Qed.

Lemma parse_csv_row_url_idempotent_witness :
  has_fields bob_row_rewritten (lit "Bob") (lit "no") (shown_url SHEET_URL)
    (lit "bo") (lit "no") (lit "2023-12-31") /\
  parse_csv_row ascii_lower bob_row_rewritten = parse_csv_row ascii_lower bob_row.
Proof.
  split; [exact bob_row_rewritten_fields|].
  exact (parse_csv_row_url_idempotent ascii_lower bob_row bob_row_rewritten
           _ _ _ _ _ _ bob_row_fields bob_row_rewritten_fields).
Defined.

Lemma short_id_row_fields :
  has_fields short_id_row (lit "Eve") (lit "no")
    (SHEETS_PREFIX ++ lit "1aBcDeFgHiJkLmNoPqRsTuVwXyZ0123456789-_abcd")
    (lit "ev") (lit "no") (lit "2022").
Proof. repeat split. Qed.

Lemma parse_csv_row_incomplete_id_witness :
  (length (lit "1aBcDeFgHiJkLmNoPqRsTuVwXyZ0123456789-_abcd") < 44)%nat /\
  parse_csv_row ascii_lower short_id_row =
    Ok (record_text (shown_name ascii_lower (lit "Eve") (lit "no")) SHORT_ID_URL
          (lit "ev") (lit "no") (lit "2022")).
Proof.
  assert (H : (length (lit "1aBcDeFgHiJkLmNoPqRsTuVwXyZ0123456789-_abcd") < 44)%nat)
    by (vm_compute; lia).
  split; [exact H|].
  exact (parse_csv_row_incomplete_id ascii_lower short_id_row _ _ _ _ _ _
           short_id_row_fields (or_introl H)).
Defined.

Lemma list_trackers_delivers_all_witness :
  exists lines,
    Forall2 (fun row line => parse_csv_row ascii_lower row = Ok line)
      [alice_row; bob_row] lines /\
    list_trackers ascii_lower (served [alice_row; bob_row]) authorized
      = (Defer :: HttpGet CSV_URL :: List.map FollowupSend (paginate lines 1800),
         Ok tt) /\
    concat (followups
              (list_trackers ascii_lower (served [alice_row; bob_row]) authorized).1)
      = joined lines.
Proof.
  apply (list_trackers_delivers_all ascii_lower authorized [alice_row; bob_row]);
    [reflexivity|discriminate|reflexivity].
Defined.

Lemma alice_matches_ALI :
  filter (fun row => occurs_in (ascii_lower (lit "ALI")) (ascii_lower (raw_name row)))
    [alice_row; bob_row] <> [].
Proof.
  rewrite filter_cons_True; [done|].
  apply contains_spec. reflexivity.
Qed.

Lemma search_delivers_matches_witness :
  let hit row := occurs_in (ascii_lower (lit "ALI")) (ascii_lower (raw_name row)) in
  exists lines,
    Forall2 (fun row line => parse_csv_row ascii_lower row = Ok line)
      (take 5 (filter hit [alice_row; bob_row])) lines /\
    search ascii_lower (served [alice_row; bob_row]) authorized (lit "ALI")
      = (Defer :: HttpGet CSV_URL :: List.map FollowupSend (paginate lines 1800),
         Ok tt) /\
    concat (followups
              (search ascii_lower (served [alice_row; bob_row]) authorized
                 (lit "ALI")).1)
      = joined lines.
Proof.
  apply (search_delivers_matches ascii_lower authorized [alice_row; bob_row]
           (lit "ALI")); [reflexivity|reflexivity|exact alice_matches_ALI].
Defined.

Lemma list_trackers_empty_message_witness :
  list_trackers ascii_lower (served []) authorized
    = ([Defer; HttpGet CSV_URL; FollowupSend (lit "No trackers found.")], Ok tt)
  <-> @nil (gmap str value) = [].
Proof.
  apply (list_trackers_empty_message ascii_lower authorized []). reflexivity.
Defined.

Lemma search_no_results_message_witness :
  let hit row := occurs_in (ascii_lower (lit "zzz")) (ascii_lower (raw_name row)) in
  search ascii_lower (served [alice_row; bob_row]) authorized (lit "zzz")
    = ([Defer; HttpGet CSV_URL;
        FollowupSend (lit "No results found for '" ++ lit "zzz" ++ lit "'.")],
       Ok tt)
  <-> filter hit [alice_row; bob_row] = [].
Proof.
  apply (search_no_results_message ascii_lower authorized [alice_row; bob_row]
           (lit "zzz")); reflexivity.
Defined.

Lemma carol_misses_ali :
  ~ occurs_in (ascii_lower (lit "ali")) (ascii_lower (lit "Carol")).
Proof. intros H. apply contains_spec in H. discriminate. Qed.

Lemma search_ignores_other_rows_witness :
  short_row !! lit "Artist Name" = Some (VStr (lit "Carol")) /\
  search_results ascii_lower ([alice_row] ++ short_row :: [bob_row]) (lit "ali")
  = search_results ascii_lower ([alice_row] ++ [bob_row]) (lit "ali").
Proof.
  split; [reflexivity|].
  apply (search_ignores_other_rows ascii_lower [alice_row] [bob_row] short_row
           (lit "Carol") (lit "ali")); [reflexivity|exact carol_misses_ali].
Defined.

Lemma commands_answered_witness :
  guild_id authorized = Some ALLOWED_GUILD_ID /\
  answered (search ascii_lower http_500 authorized (lit "ali")) /\
  answered (list_trackers ascii_lower http_500 authorized).
Proof.
  split; [reflexivity|].
  apply (commands_answered ascii_lower http_500 authorized (lit "ali")). reflexivity.
Defined.

Lemma search_empty_query_witness :
  ascii_lower [] = [] /\
  exists lines,
    search_results ascii_lower [alice_row; bob_row] [] = Ok lines /\
    Forall2 (fun row line => parse_csv_row ascii_lower row = Ok line)
      (take 5 [alice_row; bob_row]) lines.
Proof.
  split; [reflexivity|].
  apply (search_empty_query ascii_lower [alice_row; bob_row]); reflexivity.
Defined.
